(** * Multi-site documentation server: site registry, locator resolver, search

    A shallow embedding of [src/index.ts].  The three tool handlers share a
    registry lookup ([DOC_SITES[site]]), the page handler normalises its
    [url] argument against the site's [baseUrl], and the search handler scans
    the fetched index line by line.  The network is a parameter: the search
    functions take the fetched text as an argument, the handlers take the
    behaviour of [fetch]. *)

From Stdlib Require Import String Ascii.
From Stdlib Require Import List Bool Arith NArith Lia Sorted.
From Stdlib Require Import Numbers.DecimalString.
Import ListNotations.

Set Implicit Arguments.

(** ** Strings of the runtime

    A JavaScript string is a finite sequence of UTF-16 code units.  A code
    unit is a number below 65536; the functions below never build a number
    out of another one except in [ecmaLowerUnit], so the bound is not carried
    in the type. *)

Definition code_unit := N.
Definition jsstring := list code_unit.

(** A source literal of ASCII characters, as the sequence of its code units. *)
Definition lit (s : string) : jsstring :=
  map N_of_ascii (list_ascii_of_string s).
Arguments lit s%_string.

Definition quote : code_unit := 34%N.
Definition newline : code_unit := 10%N.

(** [a === b] on strings. *)
Fixpoint strictEquals (a b : jsstring) : bool :=
  match a, b with
  | [], [] => true
  | c :: a', d :: b' => (c =? d)%N && strictEquals a' b'
  | _, _ => false
  end.

(** [s.startsWith(searchString)] *)
Fixpoint startsWith (s searchString : jsstring) {struct searchString} : bool :=
  match searchString with
  | [] => true
  | q :: searchString' =>
      match s with
      | [] => false
      | c :: s' => (c =? q)%N && startsWith s' searchString'
      end
  end.

(** [s.includes(searchString)]: some position of [s] starts an occurrence. *)
Fixpoint includes (s searchString : jsstring) : bool :=
  startsWith s searchString
  || match s with
     | [] => false
     | _ :: s' => includes s' searchString
     end.

(** [s.split(separator)] for a separator of one code unit (the source only
    splits on a newline).  The result is never empty: the empty string splits
    into one empty piece. *)
Fixpoint split (s : jsstring) (separator : code_unit) : list jsstring :=
  match s with
  | [] => [[]]
  | c :: s' =>
      if (c =? separator)%N then [] :: split s' separator
      else match split s' separator with
           | piece :: pieces => (c :: piece) :: pieces
           | [] => [[c]]
           end
  end.

(** [pieces.join(separator)] *)
Fixpoint join (pieces : list jsstring) (separator : jsstring) : jsstring :=
  match pieces with
  | [] => []
  | piece :: rest =>
      match rest with
      | [] => piece
      | _ :: _ => piece ++ separator ++ join rest separator
      end
  end.

(** [String(n)] for a length. *)
Definition numberToString (n : nat) : jsstring :=
  lit (NilEmpty.string_of_uint (Nat.to_uint n)).

(** ** Site registry (index.ts, lines 16-40) *)

Record DocSite := {
  name : jsstring;
  baseUrl : jsstring;
  indexPath : jsstring
}.

(** The own properties of the object literal, in insertion order. *)
Definition DOC_SITES : list (jsstring * DocSite) :=
  [ (lit "module-federation",
     {| name := lit "Module Federation";
        baseUrl := lit "https://module-federation.io";
        indexPath := lit "/llms.txt" |});
    (lit "modernjs",
     {| name := lit "Modern.js";
        baseUrl := lit "https://modernjs.dev";
        indexPath := lit "/llms.txt" |});
    (lit "firebase",
     {| name := lit "Firebase";
        baseUrl := lit "https://firebase.google.com/docs";
        indexPath := lit "/llms.txt" |}) ].

(** [Object.keys(o)]: the own keys, in insertion order. *)
Definition Object_keys (o : list (jsstring * DocSite)) : list jsstring :=
  map fst o.

Definition VALID_SITES : jsstring :=
  join (Object_keys DOC_SITES) (lit ", ").

(** [DOC_SITES] is an ordinary object literal, so a property read that finds
    no own property continues in [Object.prototype].  These are the names
    defined there; each holds a function, except [__proto__], whose getter
    returns the prototype object. *)
Definition objectPrototypeProperties : list jsstring :=
  [ lit "constructor"; lit "hasOwnProperty"; lit "isPrototypeOf";
    lit "propertyIsEnumerable"; lit "toLocaleString"; lit "toString";
    lit "valueOf"; lit "__proto__"; lit "__defineGetter__";
    lit "__defineSetter__"; lit "__lookupGetter__"; lit "__lookupSetter__" ].

(** What [DOC_SITES[site]] evaluates to. *)
Inductive PropertyValue :=
| Undefined
| OwnSite (docSite : DocSite)
| Inherited (property : jsstring).

Fixpoint ownProperty (o : list (jsstring * DocSite)) (key : jsstring)
  : option DocSite :=
  match o with
  | [] => None
  | (k, v) :: o' => if strictEquals k key then Some v else ownProperty o' key
  end.

(** [o[key]] *)
Definition getProperty (o : list (jsstring * DocSite)) (key : jsstring)
  : PropertyValue :=
  match ownProperty o key with
  | Some v => OwnSite v
  | None =>
      if existsb (strictEquals key) objectPrototypeProperties
      then Inherited key
      else Undefined
  end.

(** An object or a function is truthy, [undefined] is not. *)
Definition truthy (v : PropertyValue) : bool :=
  match v with
  | Undefined => false
  | OwnSite _ | Inherited _ => true
  end.

(** The value a handler returns: the text of its single content item and the
    [isError] flag ([false] where the source leaves the flag out). *)
Record ToolResult := {
  text : jsstring;
  isError : bool
}.

(** The answer of the [if (!docSite)] branch (lines 87-95, 153-161, 231-239). *)
Definition unknownSite (site : jsstring) : ToolResult :=
  {| text := lit "Error: Unknown site " ++ [quote] ++ site ++ [quote]
             ++ lit ". Valid sites are: " ++ VALID_SITES;
     isError := true |}.

(** The opening of every handler (lines 85-96): read the table, answer with
    the unknown-site error when the read is falsy, go on with the value
    otherwise. *)
Definition resolve (site : jsstring) : ToolResult + PropertyValue :=
  let docSite := getProperty DOC_SITES site in
  if negb (truthy docSite) then inl (unknownSite site) else inr docSite.

(** ** Locator resolver *)

(** The index address (lines 98 and 242). *)
Definition resolveIndexLocator (docSite : DocSite) : jsstring :=
  baseUrl docSite ++ indexPath docSite.

(** The page address (lines 164-172). *)
Definition resolvePageLocator (docSite : DocSite) (url : jsstring) : jsstring :=
  if startsWith url (lit "http://") || startsWith url (lit "https://")
  then url
  else if startsWith url (lit "/")
  then baseUrl docSite ++ url
  else baseUrl docSite ++ lit "/" ++ url.

(** ** Search engine (lines 244-279)

    [String.prototype.toLowerCase] belongs to the runtime, not to the
    repository: the search is defined over any lower-casing function. *)

Section SearchEngine.

Variable toLowerCase : jsstring -> jsstring.

(** [lines[k]].  Every read of the source is in range under its guard; a
    read out of range would give [undefined], which [join] prints as the
    empty string. *)
Definition lineAt (lines : list jsstring) (k : nat) : jsstring :=
  nth k lines [].

(** The [context] array of a matching line (lines 253-256).  The
    subtraction of [lines.length - 1] never goes below zero, as [split]
    returns at least one line. *)
Definition context (lines : list jsstring) (index : nat) : list jsstring :=
  (if 0 <? index then [lineAt lines (index - 1)] else [])
  ++ [lineAt lines index]
  ++ (if index <? length lines - 1 then [lineAt lines (index + 1)] else []).

(** The test of line 251 on one line of the text. *)
Definition lineMatches (query : jsstring) (caseInsensitive : bool)
           (line : jsstring) : bool :=
  let searchQuery := if caseInsensitive then toLowerCase query else query in
  let searchLine := if caseInsensitive then toLowerCase line else line in
  includes searchLine searchQuery.

(** [lines.forEach((line, index) => ...)] from position [index] on, over
    the lines [rest] still to visit.  [found] is the [matches] array before
    each context is joined, every context paired with the index of the
    line that produced it. *)
Fixpoint forEach (query : jsstring) (caseInsensitive : bool)
         (lines rest : list jsstring) (index : nat)
         (found : list (nat * list jsstring)) : list (nat * list jsstring) :=
  match rest with
  | [] => found
  | line :: rest' =>
      forEach query caseInsensitive lines rest' (S index)
        (if lineMatches query caseInsensitive line
         then found ++ [(index, context lines index)]
         else found)
  end.

Definition searchTrace (text query : jsstring) (caseInsensitive : bool)
  : list (nat * list jsstring) :=
  let lines := split text newline in
  forEach query caseInsensitive lines lines 0 [].

(** The indices of the lines that produced an entry, in output order. *)
Definition matchedIndices (text query : jsstring) (caseInsensitive : bool)
  : list nat :=
  map fst (searchTrace text query caseInsensitive).

(** The match contexts, in output order. *)
Definition searchContexts (text query : jsstring) (caseInsensitive : bool)
  : list (list jsstring) :=
  map snd (searchTrace text query caseInsensitive).

(** The [matches] array: every context joined by a newline (line 257). *)
Definition search (text query : jsstring) (caseInsensitive : bool)
  : list jsstring :=
  map (fun c => join c [newline]) (searchContexts text query caseInsensitive).

(** What the handler answers once the index is fetched (lines 261-279). *)
Definition search_docs (docSite : DocSite) (indexContent query : jsstring)
           (caseInsensitive : bool) : ToolResult :=
  let matches := search indexContent query caseInsensitive in
  if length matches =? 0
  then {| text := lit "No matches found for " ++ [quote] ++ query ++ [quote]
                  ++ lit " in the " ++ name docSite
                  ++ lit " documentation index.";
          isError := false |}
  else {| text := lit "Found " ++ numberToString (length matches)
                  ++ lit " match"
                  ++ (if length matches =? 1 then [] else lit "es")
                  ++ lit " for " ++ [quote] ++ query ++ [quote]
                  ++ lit " in " ++ name docSite ++ lit ":"
                  ++ [newline; newline]
                  ++ join matches ([newline] ++ lit "---" ++ [newline]);
          isError := false |}.

End SearchEngine.

(** ** Lower-casing of the runtime, on ASCII and Greek

    [String.prototype.toLowerCase] follows the Unicode default case
    conversion, with the context rule for a capital sigma.  [ecmaToLowerCase]
    is that conversion on strings over the code units U+0000-U+007F and the
    Greek letters U+0391-U+03CE; any other code unit is copied and counts as
    neither cased nor case-ignorable, so the function stands for the runtime
    only on strings over this alphabet. *)

Definition inRange (lo hi u : code_unit) : bool :=
  ((lo <=? u) && (u <=? hi))%N.
Arguments inRange (lo hi u)%_N.

Definition capitalSigma : code_unit := 0x3A3%N.
Definition smallSigma : code_unit := 0x3C3%N.
Definition finalSigma : code_unit := 0x3C2%N.

(** The lower-case mapping of one code unit: A-Z, and the Greek capitals
    U+0391-U+03AB (U+03A2 is unassigned). *)
Definition ecmaLowerUnit (u : code_unit) : code_unit :=
  if inRange 0x41 0x5A u then (u + 32)%N
  else if inRange 0x391 0x3AB u && negb (u =? 0x3A2)%N then (u + 32)%N
  else u.

Definition ecmaCased (u : code_unit) : bool :=
  inRange 0x41 0x5A u || inRange 0x61 0x7A u
  || (inRange 0x391 0x3CE u && negb (u =? 0x3A2)%N).

(** Apostrophe, full stop, colon, circumflex and grave accent. *)
Definition ecmaCaseIgnorable (u : code_unit) : bool :=
  existsb (N.eqb u) [0x27; 0x2E; 0x3A; 0x5E; 0x60]%N.

(** [s] is a run of case-ignorable code units followed by a cased letter. *)
Fixpoint casedAhead (s : jsstring) : bool :=
  match s with
  | [] => false
  | u :: s' =>
      if ecmaCased u then true
      else if ecmaCaseIgnorable u then casedAhead s'
      else false
  end.

(** Lower-casing of [s], where [before] holds the code units that precede
    it, nearest first.  A capital sigma that ends a word (a cased letter
    before it, none after it) becomes the final sigma. *)
Fixpoint ecmaLowerFrom (before s : jsstring) : jsstring :=
  match s with
  | [] => []
  | u :: s' =>
      (if (u =? capitalSigma)%N && casedAhead before && negb (casedAhead s')
       then finalSigma
       else ecmaLowerUnit u)
      :: ecmaLowerFrom (u :: before) s'
  end.

Definition ecmaToLowerCase (s : jsstring) : jsstring :=
  ecmaLowerFrom [] s.

(** ** Vocabulary of the statements *)

(** [s] begins with [p]. *)
Definition beginsWith (s p : jsstring) : Prop :=
  exists rest, s = p ++ rest.

(** [q] occurs in [s] as a contiguous run of code units. *)
Definition occursIn (q s : jsstring) : Prop :=
  exists before after, s = before ++ q ++ after.

(** [s] ends with the code unit [u]. *)
Definition endsWithUnit (s : jsstring) (u : code_unit) : Prop :=
  exists front, s = front ++ [u].

(** A target with one of the two scheme prefixes. *)
Definition absoluteTarget (url : jsstring) : Prop :=
  beginsWith url (lit "http://") \/ beginsWith url (lit "https://").

(** The lines of a text paired with their 0-based indices. *)
Definition indexedFrom (index : nat) (rest : list jsstring)
  : list (nat * jsstring) :=
  combine (seq index (length rest)) rest.

(** ** Sample inputs *)

(** The third entry of the table. *)
Definition sampleSite : DocSite :=
  {| name := lit "Firebase";
     baseUrl := lit "https://firebase.google.com/docs";
     indexPath := lit "/llms.txt" |}.

(** The four-line index of the search examples. *)
Definition sampleIndex : jsstring :=
  lit "alpha" ++ [newline] ++ lit "beta" ++ [newline] ++ lit "alpha"
  ++ [newline] ++ lit "gamma".

Definition sampleMixed : jsstring :=
  lit "Hello World" ++ [newline] ++ lit "bye".

(** A capital alpha followed by a capital sigma: one line, one Greek word. *)
Definition sampleGreek : jsstring := [0x391; capitalSigma]%N.

(** ** Input schema of the tools (lines 75-77, 141-143, 214-216)

    Every tool declares its [site] parameter as
    [z.enum(["module-federation", "modernjs", "firebase"])
      .default("module-federation")]: an omitted value is replaced by the
    default, a string of the enumeration is accepted as it is, any other
    string is rejected before the handler runs. *)

Definition siteEnum : list jsstring :=
  [ lit "module-federation"; lit "modernjs"; lit "firebase" ].

Definition defaultSite : jsstring := lit "module-federation".

Definition parseSite (input : option jsstring) : option jsstring :=
  match input with
  | None => Some defaultSite
  | Some site => if existsb (strictEquals site) siteEnum then Some site else None
  end.

(** ** Fetching (lines 42-54) *)

(** A thrown value: an [Error] with its message, or a value that is not an
    [Error], with what [String(error)] prints for it. *)
Inductive Thrown :=
| ErrorObject (message : jsstring)
| OtherValue (printed : jsstring).

(** [error instanceof Error ? error.message : String(error)] *)
Definition errorMessageOf (error : Thrown) : jsstring :=
  match error with
  | ErrorObject message => message
  | OtherValue printed => printed
  end.

(** What the handlers read of a response: [response.ok], [response.status]
    and the outcome of [await response.text()]. *)
Record Response := {
  ok : bool;
  status : nat;
  body : Thrown + jsstring
}.

(** The fields of [docSite] as the template literals print them.  The
    handlers use [docSite] in template literals only.  A value inherited
    from [Object.prototype] has no [baseUrl] and no [indexPath], which print
    as [undefined]; its [name] is the name of the function, and is missing
    on the prototype object that [__proto__] gives.  [None] stands for the
    falsy [undefined], on which the handlers return before any read. *)
Definition inheritedName (property : jsstring) : jsstring :=
  if strictEquals property (lit "constructor") then lit "Object"
  else if strictEquals property (lit "__proto__") then lit "undefined"
  else property.

Definition fieldsOf (v : PropertyValue) : option DocSite :=
  match v with
  | Undefined => None
  | OwnSite docSite => Some docSite
  | Inherited property =>
      Some {| name := inheritedName property;
              baseUrl := lit "undefined";
              indexPath := lit "undefined" |}
  end.

(** The answer of the [catch] clause of a handler. *)
Definition caught (error : Thrown) : ToolResult :=
  {| text := lit "Error: " ++ errorMessageOf error; isError := true |}.

Section Handlers.

Variable toLowerCase : jsstring -> jsstring.

(** The global [fetch]: it rejects with a thrown value or resolves with a
    response. *)
Variable fetch : jsstring -> Thrown + Response.

(** [fetchContent(url)]: the text of the page, or the thrown [Error].  The
    [throw] of line 47 is inside the [try], so the [catch] of line 50 wraps
    it like any other failure. *)
Definition fetchContent (url : jsstring) : Thrown + jsstring :=
  let attempt : Thrown + jsstring :=
    match fetch url with
    | inl error => inl error
    | inr response =>
        if negb (ok response)
        then inl (ErrorObject (lit "HTTP error! status: "
                               ++ numberToString (status response)))
        else body response
    end in
  match attempt with
  | inr content => inr content
  | inl error =>
      inl (ErrorObject (lit "Failed to fetch from " ++ url ++ lit ": "
                        ++ errorMessageOf error))
  end.

(** The handler of [fetch_doc_index] (lines 83-121). *)
Definition fetch_doc_index_handler (site : jsstring) : ToolResult :=
  match fieldsOf (getProperty DOC_SITES site) with
  | None => unknownSite site
  | Some docSite =>
      let indexUrl := resolveIndexLocator docSite in
      match fetchContent indexUrl with
      | inl error => caught error
      | inr content =>
          {| text := lit "Documentation index for " ++ name docSite
                     ++ lit ":" ++ [newline; newline] ++ content;
             isError := false |}
      end
  end.

(** The handler of [fetch_doc_page] (lines 149-196). *)
Definition fetch_doc_page_handler (url site : jsstring) : ToolResult :=
  match fieldsOf (getProperty DOC_SITES site) with
  | None => unknownSite site
  | Some docSite =>
      let fetchUrl := resolvePageLocator docSite url in
      match fetchContent fetchUrl with
      | inl error => caught error
      | inr content =>
          {| text := lit "Content from " ++ fetchUrl ++ lit " ("
                     ++ name docSite ++ lit "):" ++ [newline; newline]
                     ++ content;
             isError := false |}
      end
  end.

(** The handler of [search_docs] (lines 227-293). *)
Definition search_docs_handler (query site : jsstring)
           (caseInsensitive : bool) : ToolResult :=
  match fieldsOf (getProperty DOC_SITES site) with
  | None => unknownSite site
  | Some docSite =>
      let indexUrl := resolveIndexLocator docSite in
      match fetchContent indexUrl with
      | inl error => caught error
      | inr indexContent =>
          search_docs toLowerCase docSite indexContent query caseInsensitive
      end
  end.

End Handlers.

(** ** The handlers with the requests they make

    The same code with the effect of [fetch] written out: the network
    keeps the addresses it was asked for, in order, and every call of
    [fetch] adds one. *)

(** A computation that may call [fetch]: from the requests made so far to
    its value and the requests made after it. *)
Definition Network (A : Type) : Type := list jsstring -> A * list jsstring.

Section RecordedHandlers.

Variable toLowerCase : jsstring -> jsstring.
Variable fetch : jsstring -> Thrown + Response.

(** [await fetch(url)] (line 45). *)
Definition fetchRecorded (url : jsstring) : Network (Thrown + Response) :=
  fun requests => (fetch url, requests ++ [url]).

(** [fetchContent(url)] (lines 43-54). *)
Definition fetchContentRecorded (url : jsstring)
  : Network (Thrown + jsstring) :=
  fun requests =>
    let (outcome, requests') := fetchRecorded url requests in
    let attempt : Thrown + jsstring :=
      match outcome with
      | inl error => inl error
      | inr response =>
          if negb (ok response)
          then inl (ErrorObject (lit "HTTP error! status: "
                                 ++ numberToString (status response)))
          else body response
      end in
    (match attempt with
     | inr content => inr content
     | inl error =>
         inl (ErrorObject (lit "Failed to fetch from " ++ url ++ lit ": "
                           ++ errorMessageOf error))
     end, requests').

(** The handler of [fetch_doc_index] (lines 83-121). *)
Definition fetch_doc_index_recorded (site : jsstring) : Network ToolResult :=
  fun requests =>
    match fieldsOf (getProperty DOC_SITES site) with
    | None => (unknownSite site, requests)
    | Some docSite =>
        let indexUrl := resolveIndexLocator docSite in
        let (outcome, requests') := fetchContentRecorded indexUrl requests in
        (match outcome with
         | inl error => caught error
         | inr content =>
             {| text := lit "Documentation index for " ++ name docSite
                        ++ lit ":" ++ [newline; newline] ++ content;
                isError := false |}
         end, requests')
    end.

(** The handler of [fetch_doc_page] (lines 149-196). *)
Definition fetch_doc_page_recorded (url site : jsstring)
  : Network ToolResult :=
  fun requests =>
    match fieldsOf (getProperty DOC_SITES site) with
    | None => (unknownSite site, requests)
    | Some docSite =>
        let fetchUrl := resolvePageLocator docSite url in
        let (outcome, requests') := fetchContentRecorded fetchUrl requests in
        (match outcome with
         | inl error => caught error
         | inr content =>
             {| text := lit "Content from " ++ fetchUrl ++ lit " ("
                        ++ name docSite ++ lit "):" ++ [newline; newline]
                        ++ content;
                isError := false |}
         end, requests')
    end.

(** The handler of [search_docs] (lines 227-293). *)
Definition search_docs_recorded (query site : jsstring)
           (caseInsensitive : bool) : Network ToolResult :=
  fun requests =>
    match fieldsOf (getProperty DOC_SITES site) with
    | None => (unknownSite site, requests)
    | Some docSite =>
        let indexUrl := resolveIndexLocator docSite in
        let (outcome, requests') := fetchContentRecorded indexUrl requests in
        (match outcome with
         | inl error => caught error
         | inr indexContent =>
             search_docs toLowerCase docSite indexContent query
                         caseInsensitive
         end, requests')
    end.

End RecordedHandlers.

(** A network that serves the sample index at the third site's index
    address and answers 404 elsewhere. *)
Definition sampleFetch (url : jsstring) : Thrown + Response :=
  if strictEquals url (lit "https://firebase.google.com/docs/llms.txt")
  then inr {| ok := true; status := 200; body := inr sampleIndex |}
  else inr {| ok := false; status := 404; body := inr [] |}.

(** * Properties *)

(** ** Strings *)

Lemma strictEquals_eq (a b : jsstring) :
  strictEquals a b = true <-> a = b.
Proof.
  revert b; induction a as [|c a IH]; intros [|d b]; simpl;
    try (split; [discriminate | discriminate]); try tauto.
  rewrite andb_true_iff, N.eqb_eq, IH.
  split; [intros [-> ->]; reflexivity | intros H; inversion H; auto].
Qed.

Lemma strictEquals_refl (a : jsstring) : strictEquals a a = true.
Proof. apply strictEquals_eq; reflexivity. Qed.

Lemma startsWith_beginsWith (s p : jsstring) :
  startsWith s p = true <-> beginsWith s p.
Proof.
  unfold beginsWith; revert s; induction p as [|q p IH]; intros s; simpl.
  - split; [intros _; exists s; reflexivity | reflexivity].
  - destruct s as [|c s].
    + split; [discriminate | intros [r Hr]; discriminate].
    + rewrite andb_true_iff, N.eqb_eq, IH. split.
      * intros [-> [r ->]]; exists r; reflexivity.
      * intros [r Hr]; inversion Hr; subst; split; [reflexivity | exists r; reflexivity].
Qed.

Lemma startsWith_false (s p : jsstring) :
  startsWith s p = false <-> ~ beginsWith s p.
Proof.
  rewrite <- startsWith_beginsWith.
  destruct (startsWith s p); split; congruence.
Qed.

Lemma includes_occursIn (s q : jsstring) :
  includes s q = true <-> occursIn q s.
Proof.
  unfold occursIn; induction s as [|c s IH]; simpl.
  - rewrite orb_false_r, startsWith_beginsWith. split.
    + intros [r Hr]; exists [], r; exact Hr.
    + intros [b [a H]]. destruct b; [exists a; exact H | discriminate].
  - rewrite orb_true_iff, startsWith_beginsWith, IH. split.
    + intros [[r Hr] | [b [a H]]].
      * exists [], r; exact Hr.
      * exists (c :: b), a; simpl; rewrite H; reflexivity.
    + intros [[|d b] [a H]].
      * left; exists a; exact H.
      * right; inversion H; subst; exists b, a; reflexivity.
Qed.

Lemma includes_false (s q : jsstring) :
  includes s q = false <-> ~ occursIn q s.
Proof.
  rewrite <- includes_occursIn.
  destruct (includes s q); split; congruence.
Qed.

Lemma includes_empty (s : jsstring) : includes s [] = true.
Proof. apply includes_occursIn; exists [], s; reflexivity. Qed.

Lemma includes_in_empty (q : jsstring) : includes [] q = true <-> q = [].
Proof.
  rewrite includes_occursIn; split.
  - intros [b [a H]]. symmetry in H.
    apply app_eq_nil in H as [_ H]. apply app_eq_nil in H as [H _]. exact H.
  - intros ->; exists [], []; reflexivity.
Qed.

Lemma occursIn_map (f : code_unit -> code_unit) (q s : jsstring) :
  occursIn q s -> occursIn (map f q) (map f s).
Proof.
  intros [b [a ->]]. exists (map f b), (map f a).
  rewrite !map_app; reflexivity.
Qed.

Lemma split_not_nil (s : jsstring) (sep : code_unit) : split s sep <> [].
Proof.
  destruct s as [|c s]; simpl; [discriminate|].
  destruct (c =? sep)%N; [discriminate|].
  destruct (split s sep); discriminate.
Qed.

Lemma split_length_pos (s : jsstring) (sep : code_unit) :
  0 < length (split s sep).
Proof.
  pose proof (split_not_nil s sep).
  destruct (split s sep); [congruence | simpl; lia].
Qed.

Lemma split_pieces_free (s : jsstring) (sep : code_unit) :
  Forall (fun piece => ~ In sep piece) (split s sep).
Proof.
  induction s as [|c s IH]; simpl.
  - constructor; [intros [] | constructor].
  - destruct (N.eqb_spec c sep) as [->|Hne].
    + constructor; [intros [] | exact IH].
    + destruct (split s sep) as [|piece pieces].
      * constructor; [|constructor]. intros [H|[]]; congruence.
      * inversion IH; subst. constructor; [|assumption].
        intros [H|H]; [congruence | contradiction].
Qed.

Lemma join_split (s : jsstring) (sep : code_unit) :
  join (split s sep) [sep] = s.
Proof.
  induction s as [|c s IH]; simpl; [reflexivity|].
  pose proof (split_not_nil s sep) as Hne.
  destruct (N.eqb_spec c sep) as [->|Hc].
  - destruct (split s sep) as [|p ps]; [congruence|].
    simpl in *. rewrite IH; reflexivity.
  - destruct (split s sep) as [|p ps]; [congruence|].
    simpl in *. destruct ps; simpl in *; rewrite <- IH; reflexivity.
Qed.

Lemma split_free (s : jsstring) (sep : code_unit) :
  ~ In sep s -> split s sep = [s].
Proof.
  induction s as [|c s IH]; simpl; intros H; [reflexivity|].
  destruct (N.eqb_spec c sep) as [->|Hc]; [exfalso; auto|].
  rewrite IH by auto. reflexivity.
Qed.

Lemma split_app_sep (a b : jsstring) (sep : code_unit) :
  ~ In sep a -> split (a ++ sep :: b) sep = a :: split b sep.
Proof.
  induction a as [|c a IH]; simpl; intros H.
  - rewrite N.eqb_refl; reflexivity.
  - destruct (N.eqb_spec c sep) as [->|Hc]; [exfalso; auto|].
    rewrite IH by auto. reflexivity.
Qed.

Lemma split_join (pieces : list jsstring) (sep : code_unit) :
  pieces <> [] ->
  Forall (fun piece => ~ In sep piece) pieces ->
  split (join pieces [sep]) sep = pieces.
Proof.
  induction pieces as [|p ps IH]; intros Hne Hfree; [congruence|].
  inversion Hfree as [|? ? Hp Hps]; subst.
  destruct ps as [|p' ps'].
  - simpl. apply split_free; exact Hp.
  - change (join (p :: p' :: ps') [sep])
      with (p ++ [sep] ++ join (p' :: ps') [sep]).
    change ([sep] ++ join (p' :: ps') [sep])
      with (sep :: join (p' :: ps') [sep]).
    rewrite split_app_sep by exact Hp.
    rewrite IH; [reflexivity | discriminate | exact Hps].
Qed.

(** ** Site registry *)

Lemma ownProperty_In (o : list (jsstring * DocSite)) (key : jsstring)
      (docSite : DocSite) :
  ownProperty o key = Some docSite -> In (key, docSite) o.
Proof.
  induction o as [|[k v] o IH]; simpl; [discriminate|].
  destruct (strictEquals k key) eqn:E.
  - apply strictEquals_eq in E. intros H; inversion H; subst; auto.
  - auto.
Qed.

Lemma ownProperty_None (o : list (jsstring * DocSite)) (key : jsstring) :
  ownProperty o key = None <-> ~ In key (Object_keys o).
Proof.
  induction o as [|[k v] o IH]; simpl; [tauto|].
  destruct (strictEquals k key) eqn:E.
  - apply strictEquals_eq in E. split; [discriminate | intros H; exfalso; auto].
  - rewrite IH. split; [|tauto].
    intros H [Hk|Hin]; [|contradiction].
    subst. rewrite strictEquals_refl in E. discriminate.
Qed.

Lemma inherited_false (key : jsstring) :
  ~ In key objectPrototypeProperties ->
  existsb (strictEquals key) objectPrototypeProperties = false.
Proof.
  intros H. destruct (existsb _ _) eqn:E; [|reflexivity].
  apply existsb_exists in E as [x [Hin Hx]].
  apply strictEquals_eq in Hx; subst. contradiction.
Qed.

Lemma endsWithUnit_last (s : jsstring) (u : code_unit) :
  endsWithUnit s u -> last s 0%N = u.
Proof. intros [front ->]. apply last_last. Qed.

(** C8. Every entry of the static table has a key of its own (no key occurs
    twice), a [baseUrl] that does not end with a slash, and an [indexPath]
    that begins with a slash. *)
Theorem DOC_SITES_invariant :
  NoDup (Object_keys DOC_SITES)
  /\ Forall (fun entry =>
               ~ endsWithUnit (baseUrl (snd entry)) 47%N
               /\ beginsWith (indexPath (snd entry)) (lit "/"))
            DOC_SITES.
Proof.
  split.
  - unfold Object_keys, DOC_SITES; simpl map.
    repeat constructor; simpl; intros H;
      repeat (destruct H as [H|H]; [vm_compute in H; discriminate H|]);
      exact H.
  - unfold DOC_SITES.
    repeat constructor; simpl;
      try (intros H; apply endsWithUnit_last in H; vm_compute in H;
           discriminate H);
      exists (lit "llms.txt"); reflexivity.
Qed.

(** The read of the table where it finds an own property or nothing: a
    key of the table gives the descriptor stored under it; a key for which
    neither the table nor [Object.prototype] has a property gives the
    unknown-site error, whose text carries the key and the keys of the
    table joined by a comma. *)
Theorem resolve_registered_or_unknown (site : jsstring) :
  (In site (Object_keys DOC_SITES) ->
   exists docSite,
     In (site, docSite) DOC_SITES /\ resolve site = inr (OwnSite docSite))
  /\ (~ In site (Object_keys DOC_SITES) ->
      ~ In site objectPrototypeProperties ->
      resolve site =
      inl {| text := lit "Error: Unknown site " ++ [quote] ++ site ++ [quote]
                     ++ lit ". Valid sites are: "
                     ++ join (Object_keys DOC_SITES) (lit ", ");
             isError := true |}).
Proof.
  unfold resolve, getProperty. split.
  - intros Hin. destruct (ownProperty DOC_SITES site) as [d|] eqn:E.
    + exists d. split; [apply ownProperty_In; exact E | reflexivity].
    + apply ownProperty_None in E. contradiction.
  - intros Hown Hinh.
    apply ownProperty_None in Hown. rewrite Hown.
    rewrite (inherited_false Hinh). reflexivity.
Qed.

Lemma resolve_registered_or_unknown_witness :
  (exists docSite,
      In (lit "firebase", docSite) DOC_SITES
      /\ resolve (lit "firebase") = inr (OwnSite docSite))
  /\ isError (unknownSite (lit "nextjs")) = true
  /\ resolve (lit "nextjs") = inl (unknownSite (lit "nextjs")).
Proof.
  destruct (resolve_registered_or_unknown (lit "firebase")) as [Hreg _].
  destruct (resolve_registered_or_unknown (lit "nextjs")) as [_ Hunk].
  split; [|split].
  - apply Hreg. vm_compute. right; right; left; reflexivity.
  - reflexivity.
  - apply Hunk; vm_compute; intros H;
      repeat (destruct H as [H|H]; [discriminate H|]); exact H.
Defined.


(** ** Locator resolver *)

Ltac reflect_prefix :=
  repeat match goal with
         | H : startsWith _ _ = true |- _ => apply startsWith_beginsWith in H
         | H : startsWith _ _ = false |- _ => apply startsWith_false in H
         end.

(** C1. A target that begins with [http://] or [https://] is returned as it
    is, whatever the site; otherwise a target that begins with a slash is
    appended to [baseUrl]; otherwise [baseUrl], a slash and the target are
    concatenated. *)
Theorem resolvePageLocator_precedence (docSite : DocSite) (url : jsstring) :
  (absoluteTarget url -> resolvePageLocator docSite url = url)
  /\ (~ absoluteTarget url -> beginsWith url (lit "/") ->
      resolvePageLocator docSite url = baseUrl docSite ++ url)
  /\ (~ absoluteTarget url -> ~ beginsWith url (lit "/") ->
      resolvePageLocator docSite url = baseUrl docSite ++ lit "/" ++ url).
Proof.
  unfold resolvePageLocator, absoluteTarget.
  destruct (startsWith url (lit "http://")) eqn:Ehttp;
    destruct (startsWith url (lit "https://")) eqn:Ehttps;
    destruct (startsWith url (lit "/")) eqn:Eroot; cbn [orb];
    reflect_prefix; repeat split; intros; try reflexivity; tauto.
Qed.

Lemma resolvePageLocator_precedence_witness :
  resolvePageLocator sampleSite (lit "https://x/y") = lit "https://x/y"
  /\ resolvePageLocator sampleSite (lit "/a/b")
     = lit "https://firebase.google.com/docs/a/b"
  /\ resolvePageLocator sampleSite (lit "a/b")
     = lit "https://firebase.google.com/docs/a/b".
Proof.
  destruct (resolvePageLocator_precedence sampleSite (lit "https://x/y"))
    as [Habs _].
  destruct (resolvePageLocator_precedence sampleSite (lit "/a/b"))
    as [_ [Hroot _]].
  destruct (resolvePageLocator_precedence sampleSite (lit "a/b"))
    as [_ [_ Hbare]].
  split; [|split].
  - apply Habs. right. exists (lit "x/y"). reflexivity.
  - apply Hroot.
    + intros [[r H]|[r H]]; vm_compute in H; discriminate H.
    + exists (lit "a/b"). reflexivity.
  - apply Hbare.
    + intros [[r H]|[r H]]; vm_compute in H; discriminate H.
    + intros [r H]; vm_compute in H; discriminate H.
Defined.

(** C6. The empty target is a bare path: the result is [baseUrl] followed by
    a slash. *)
Theorem resolvePageLocator_empty (docSite : DocSite) :
  resolvePageLocator docSite [] = baseUrl docSite ++ lit "/".
Proof.
  unfold resolvePageLocator. simpl. reflexivity.
Qed.

(** ** Search engine: the loop *)

Lemma indexedFrom_cons (index : nat) (line : jsstring) (rest : list jsstring) :
  indexedFrom index (line :: rest) = (index, line) :: indexedFrom (S index) rest.
Proof. reflexivity. Qed.

Lemma indexedFrom_In (rest : list jsstring) (index i : nat) (line : jsstring) :
  In (i, line) (indexedFrom index rest)
  <-> exists k, i = index + k /\ nth_error rest k = Some line.
Proof.
  revert index; induction rest as [|l rest IH]; intros index.
  - simpl. split; [intros [] | intros [[|k] [_ H]]; discriminate H].
  - rewrite indexedFrom_cons. simpl. rewrite IH. split.
    + intros [H | [k [-> Hk]]].
      * inversion H; subst. exists 0. split; [lia | reflexivity].
      * exists (S k). split; [lia | exact Hk].
    + intros [[|k] [-> Hk]].
      * left. simpl in Hk. inversion Hk. f_equal. lia.
      * right. exists k. split; [lia | exact Hk].
Qed.

Lemma indexedFrom_length (rest : list jsstring) (index : nat) :
  length (indexedFrom index rest) = length rest.
Proof.
  unfold indexedFrom. rewrite length_combine, length_seq. lia.
Qed.

Lemma filter_all (A : Type) (f : A -> bool) (l : list A) :
  (forall x, In x l -> f x = true) -> filter f l = l.
Proof.
  induction l as [|x l IH]; simpl; intros H; [reflexivity|].
  rewrite (H x) by auto. rewrite IH by auto. reflexivity.
Qed.

Lemma filter_none (A : Type) (f : A -> bool) (l : list A) :
  (forall x, In x l -> f x = false) -> filter f l = [].
Proof.
  induction l as [|x l IH]; simpl; intros H; [reflexivity|].
  rewrite (H x) by auto. apply IH. auto.
Qed.

Lemma indexed_filter_bounds (f : nat * jsstring -> bool)
      (rest : list jsstring) (index i : nat) :
  In i (map fst (filter f (indexedFrom index rest))) -> index <= i.
Proof.
  intros H. apply in_map_iff in H as [[j line] [Hj Hin]].
  apply filter_In in Hin as [Hin _].
  apply indexedFrom_In in Hin as [k [Hk _]]. simpl in Hj. lia.
Qed.

Lemma indexed_filter_sorted (f : nat * jsstring -> bool)
      (rest : list jsstring) (index : nat) :
  StronglySorted lt (map fst (filter f (indexedFrom index rest))).
Proof.
  revert index; induction rest as [|l rest IH]; intros index.
  - constructor.
  - rewrite indexedFrom_cons. simpl. destruct (f (index, l)).
    + simpl. constructor; [apply IH|].
      apply Forall_forall. intros i Hi.
      apply indexed_filter_bounds in Hi. lia.
    + apply IH.
Qed.

Lemma StronglySorted_lt_NoDup (l : list nat) : StronglySorted lt l -> NoDup l.
Proof.
  induction 1 as [|a l Hs IH Hall]; constructor; [|exact IH].
  intros Hin. rewrite Forall_forall in Hall. specialize (Hall a Hin). lia.
Qed.

Section SearchEngineFacts.

Variable toLowerCase : jsstring -> jsstring.

(** Entries pushed onto a non-empty array follow the entries already there. *)
Lemma forEach_app (query : jsstring) (ci : bool) (lines rest : list jsstring)
      (index : nat) (found : list (nat * list jsstring)) :
  forEach toLowerCase query ci lines rest index found
  = found ++ forEach toLowerCase query ci lines rest index [].
Proof.
  revert index found; induction rest as [|l rest IH]; intros index found; simpl.
  - rewrite app_nil_r; reflexivity.
  - destruct (lineMatches toLowerCase query ci l).
    + rewrite IH. rewrite (IH (S index) [_]).
      rewrite <- app_assoc. reflexivity.
    + apply IH.
Qed.

(** The loop keeps, in order, the indexed lines that pass the test. *)
Lemma forEach_filter (query : jsstring) (ci : bool) (lines rest : list jsstring)
      (index : nat) :
  forEach toLowerCase query ci lines rest index []
  = map (fun p => (fst p, context lines (fst p)))
        (filter (fun p => lineMatches toLowerCase query ci (snd p))
                (indexedFrom index rest)).
Proof.
  revert index; induction rest as [|l rest IH]; intros index; [reflexivity|].
  rewrite indexedFrom_cons. simpl.
  destruct (lineMatches toLowerCase query ci l); simpl.
  - rewrite forEach_app. simpl. rewrite IH. reflexivity.
  - apply IH.
Qed.

Lemma matchedIndices_filter (text query : jsstring) (ci : bool) :
  matchedIndices toLowerCase text query ci
  = map fst (filter (fun p => lineMatches toLowerCase query ci (snd p))
                    (indexedFrom 0 (split text newline))).
Proof.
  unfold matchedIndices, searchTrace. rewrite forEach_filter.
  rewrite map_map. reflexivity.
Qed.

Lemma matchedIndices_In (text query : jsstring) (ci : bool) (i : nat) :
  In i (matchedIndices toLowerCase text query ci)
  <-> exists line, nth_error (split text newline) i = Some line
                   /\ lineMatches toLowerCase query ci line = true.
Proof.
  rewrite matchedIndices_filter, in_map_iff. split.
  - intros [[j line] [Hj Hin]]. simpl in Hj; subst j.
    apply filter_In in Hin as [Hin Hm].
    apply indexedFrom_In in Hin as [k [Hk Hnth]]. simpl in Hk; subst k.
    exists line. split; [exact Hnth | exact Hm].
  - intros [line [Hnth Hm]]. exists (i, line). split; [reflexivity|].
    apply filter_In. split; [|exact Hm].
    apply indexedFrom_In. exists i. split; [reflexivity | exact Hnth].
Qed.

Lemma searchTrace_In (text query : jsstring) (ci : bool) (i : nat)
      (c : list jsstring) :
  In (i, c) (searchTrace toLowerCase text query ci)
  <-> In i (matchedIndices toLowerCase text query ci)
      /\ c = context (split text newline) i.
Proof.
  unfold matchedIndices, searchTrace. rewrite forEach_filter.
  rewrite map_map. simpl. rewrite !in_map_iff. split.
  - intros [p [Hp Hin]]. inversion Hp; subst. split; [|reflexivity].
    exists p. split; [reflexivity | exact Hin].
  - intros [[p [Hp Hin]] ->]. subst i. exists p. split; [reflexivity | exact Hin].
Qed.

Lemma search_map (text query : jsstring) (ci : bool) :
  search toLowerCase text query ci
  = map (fun i => join (context (split text newline) i) [newline])
        (matchedIndices toLowerCase text query ci).
Proof.
  unfold search, searchContexts, matchedIndices, searchTrace.
  rewrite forEach_filter. rewrite !map_map. reflexivity.
Qed.

Lemma lineMatches_occursIn (query : jsstring) (ci : bool) (line : jsstring) :
  lineMatches toLowerCase query ci line = true
  <-> occursIn (if ci then toLowerCase query else query)
               (if ci then toLowerCase line else line).
Proof. unfold lineMatches. apply includes_occursIn. Qed.

(** ** Search engine: the context of a match *)

Lemma lineAt_nth_error (lines : list jsstring) (k : nat) (x : jsstring) :
  nth_error lines k = Some x -> lineAt lines k = x.
Proof. intros H. unfold lineAt. apply nth_error_nth. exact H. Qed.

Lemma context_shape (lines : list jsstring) (i : nat) (line : jsstring) :
  nth_error lines i = Some line ->
  exists before after,
    context lines i = before ++ [line] ++ after
    /\ ((i = 0 /\ before = [])
        \/ (0 < i /\ exists prev,
               nth_error lines (i - 1) = Some prev /\ before = [prev]))
    /\ ((i = length lines - 1 /\ after = [])
        \/ (i < length lines - 1 /\ exists next,
               nth_error lines (i + 1) = Some next /\ after = [next])).
Proof.
  intros Hi.
  assert (Hlt : i < length lines) by (apply nth_error_Some; congruence).
  unfold context. rewrite (lineAt_nth_error _ _ Hi).
  eexists; eexists; split; [reflexivity|]. split.
  - destruct (Nat.ltb_spec 0 i) as [Hpos|Hzero].
    + right. split; [exact Hpos|].
      destruct (nth_error lines (i - 1)) as [prev|] eqn:E.
      * exists prev. split; [reflexivity|].
        rewrite (lineAt_nth_error _ _ E). reflexivity.
      * apply nth_error_None in E. lia.
    + left. split; [lia | reflexivity].
  - destruct (Nat.ltb_spec i (length lines - 1)) as [Hin|Hlast].
    + right. split; [exact Hin|].
      destruct (nth_error lines (i + 1)) as [next|] eqn:E.
      * exists next. split; [reflexivity|].
        rewrite (lineAt_nth_error _ _ E). reflexivity.
      * apply nth_error_None in E. lia.
    + left. split; [lia | reflexivity].
Qed.

Lemma context_lines_In (lines : list jsstring) (i : nat) (line x : jsstring) :
  nth_error lines i = Some line -> In x (context lines i) -> In x lines.
Proof.
  intros Hi Hx.
  destruct (context_shape _ _ Hi) as [before [after [Hc [Hb Ha]]]].
  rewrite Hc in Hx. apply in_app_or in Hx as [Hx|Hx].
  - destruct Hb as [[_ ->]|[_ [prev [Hp ->]]]]; [destruct Hx|].
    destruct Hx as [<-|[]]. eapply nth_error_In; exact Hp.
  - apply in_app_or in Hx as [[<-|[]]|Hx].
    + eapply nth_error_In; exact Hi.
    + destruct Ha as [[_ ->]|[_ [next [Hn ->]]]]; [destruct Hx|].
      destruct Hx as [<-|[]]. eapply nth_error_In; exact Hn.
Qed.

(** ** Search engine: the claims *)

(** C3. The context of a match at index [i] is made of line [i-1] when
    [i > 0] and of nothing before otherwise, of line [i], and of line [i+1]
    when [i] is not the last index and of nothing after otherwise.  The
    lines are those of the text as split, whatever [caseInsensitive] is, and
    splitting the joined context gives them back. *)
Theorem match_context_neighbours (text query : jsstring) (ci : bool)
        (i : nat) (c : list jsstring) :
  In (i, c) (searchTrace toLowerCase text query ci) ->
  exists before line after,
    c = before ++ [line] ++ after
    /\ nth_error (split text newline) i = Some line
    /\ ((i = 0 /\ before = [])
        \/ (0 < i /\ exists prev,
               nth_error (split text newline) (i - 1) = Some prev
               /\ before = [prev]))
    /\ ((i = length (split text newline) - 1 /\ after = [])
        \/ (i < length (split text newline) - 1 /\ exists next,
               nth_error (split text newline) (i + 1) = Some next
               /\ after = [next]))
    /\ split (join c [newline]) newline = c.
Proof.
  intros Hin. apply searchTrace_In in Hin as [Hi ->].
  apply matchedIndices_In in Hi as [line [Hnth _]].
  destruct (context_shape _ _ Hnth) as [before [after [Hc [Hb Ha]]]].
  exists before, line, after. repeat split; try assumption.
  apply split_join.
  - rewrite Hc. destruct before; discriminate.
  - apply Forall_forall. intros x Hx.
    pose proof (split_pieces_free text newline) as Hfree.
    rewrite Forall_forall in Hfree. apply Hfree.
    eapply context_lines_In; eassumption.
Qed.

(** C4. The indices of the lines that produced an entry are strictly
    ascending, so no index occurs twice; they are the indices of the lines
    that pass the test; and the result holds, in that order, one joined
    context per such index. *)
Theorem search_one_entry_per_line_ascending (text query : jsstring) (ci : bool) :
  StronglySorted lt (matchedIndices toLowerCase text query ci)
  /\ NoDup (matchedIndices toLowerCase text query ci)
  /\ (forall i,
        In i (matchedIndices toLowerCase text query ci)
        <-> exists line,
            nth_error (split text newline) i = Some line
            /\ occursIn (if ci then toLowerCase query else query)
                        (if ci then toLowerCase line else line))
  /\ search toLowerCase text query ci
     = map (fun i => join (context (split text newline) i) [newline])
           (matchedIndices toLowerCase text query ci).
Proof.
  assert (Hs : StronglySorted lt (matchedIndices toLowerCase text query ci)).
  { rewrite matchedIndices_filter. apply indexed_filter_sorted. }
  split; [exact Hs|]. split; [apply StronglySorted_lt_NoDup; exact Hs|].
  split; [|apply search_map].
  intros i. rewrite matchedIndices_In.
  split; intros [line [Hn Hm]]; exists line; split; try exact Hn;
    apply lineMatches_occursIn; exact Hm.
Qed.

(** C7. When the query occurs in no line, the result is the empty array,
    and the handler answers with its no-match text and no error flag. *)
Theorem search_no_match_empty (text query : jsstring) (ci : bool) :
  (forall line, In line (split text newline) ->
                ~ occursIn (if ci then toLowerCase query else query)
                           (if ci then toLowerCase line else line)) ->
  search toLowerCase text query ci = []
  /\ forall docSite,
      search_docs toLowerCase docSite text query ci
      = {| text := lit "No matches found for " ++ [quote] ++ query ++ [quote]
                   ++ lit " in the " ++ name docSite
                   ++ lit " documentation index.";
           isError := false |}.
Proof.
  intros Hnone.
  assert (He : search toLowerCase text query ci = []).
  { rewrite search_map, matchedIndices_filter.
    rewrite filter_none; [reflexivity|].
    intros [j line] Hin. simpl.
    apply indexedFrom_In in Hin as [k [_ Hk]]. apply nth_error_In in Hk.
    destruct (lineMatches toLowerCase query ci line) eqn:E; [|reflexivity].
    apply lineMatches_occursIn in E. exfalso. exact (Hnone line Hk E). }
  split; [exact He|]. intros docSite. unfold search_docs. rewrite He. reflexivity.
Qed.

(** C9, as the code has it.  Where lower-casing converts the query and every
    line code unit by code unit, a line that contains the query exactly
    also matches under lower-cased comparison. *)
Theorem exact_match_also_insensitive (f : code_unit -> code_unit)
        (text query : jsstring) :
  (forall line, In line (split text newline) -> toLowerCase line = map f line) ->
  toLowerCase query = map f query ->
  forall i,
    In i (matchedIndices toLowerCase text query false) ->
    In i (matchedIndices toLowerCase text query true).
Proof.
  intros Hlines Hquery i. rewrite !matchedIndices_In.
  intros [line [Hn Hm]]. exists line. split; [exact Hn|].
  apply lineMatches_occursIn. apply lineMatches_occursIn in Hm.
  rewrite Hquery, (Hlines line (nth_error_In _ _ Hn)).
  apply occursIn_map. exact Hm.
Qed.

Hypothesis toLowerCase_empty : toLowerCase [] = [].

(** C2. The line at index [i] produces an entry exactly when the query, made
    lower-case when [caseInsensitive] is set, occurs in the line, made
    lower-case under the same condition.  For the empty query every line
    produces an entry. *)
Theorem search_matches_iff (text query : jsstring) (ci : bool) :
  (forall i line,
      nth_error (split text newline) i = Some line ->
      (In i (matchedIndices toLowerCase text query ci)
       <-> occursIn (if ci then toLowerCase query else query)
                    (if ci then toLowerCase line else line)))
  /\ (query = [] ->
      length (search toLowerCase text query ci)
      = length (split text newline)).
Proof.
  split.
  - intros i line Hn. rewrite matchedIndices_In. split.
    + intros [line' [Hn' Hm]]. rewrite Hn in Hn'. inversion Hn'; subst.
      apply lineMatches_occursIn. exact Hm.
    + intros Ho. exists line. split; [exact Hn|].
      apply lineMatches_occursIn. exact Ho.
  - intros ->. rewrite search_map, matchedIndices_filter, !length_map.
    rewrite filter_all; [apply indexedFrom_length|].
    intros [j line] _. unfold lineMatches. simpl.
    destruct ci; [rewrite toLowerCase_empty|]; apply includes_empty.
Qed.

Hypothesis toLowerCase_nonempty : forall s, s <> [] -> toLowerCase s <> [].

(** C10. The empty text has one line, the empty one.  With the empty query
    the result is one context made of that line alone; with any other query
    the result is empty. *)
Theorem search_empty_text (query : jsstring) (ci : bool) :
  split [] newline = [[]]
  /\ (query = [] ->
      searchContexts toLowerCase [] query ci = [[[]]]
      /\ search toLowerCase [] query ci = [[]])
  /\ (query <> [] ->
      searchContexts toLowerCase [] query ci = []
      /\ search toLowerCase [] query ci = []).
Proof.
  split; [reflexivity|].
  unfold search, searchContexts, searchTrace.
  change (split [] newline) with [@nil code_unit]. cbn [forEach].
  split.
  - intros ->.
    assert (Hyes : lineMatches toLowerCase [] ci [] = true).
    { unfold lineMatches.
      destruct ci; [rewrite toLowerCase_empty|]; apply includes_empty. }
    rewrite Hyes. split; reflexivity.
  - intros Hq.
    assert (Hno : lineMatches toLowerCase query ci [] = false).
    { unfold lineMatches. apply includes_false. intros Ho.
      apply includes_occursIn in Ho. destruct ci.
      - rewrite toLowerCase_empty in Ho. apply includes_in_empty in Ho.
        exact (toLowerCase_nonempty Hq Ho).
      - apply includes_in_empty in Ho. exact (Hq Ho). }
    rewrite Hno. split; reflexivity.
Qed.

End SearchEngineFacts.

(** ** The lower-casing of the runtime *)

Lemma ecmaToLowerCase_empty : ecmaToLowerCase [] = [].
Proof. reflexivity. Qed.

Lemma ecmaToLowerCase_nonempty (s : jsstring) :
  s <> [] -> ecmaToLowerCase s <> [].
Proof. destruct s; [congruence | discriminate]. Qed.

(** Without a capital sigma the conversion goes code unit by code unit. *)
Lemma ecmaLowerFrom_unitwise (s before : jsstring) :
  ~ In capitalSigma s -> ecmaLowerFrom before s = map ecmaLowerUnit s.
Proof.
  revert before; induction s as [|u s IH]; intros before H; [reflexivity|].
  simpl. destruct (N.eqb_spec u capitalSigma) as [->|Hu].
  - exfalso. apply H. left; reflexivity.
  - simpl. rewrite IH; [reflexivity|]. intros Hin. apply H. right; exact Hin.
Qed.

Lemma ecmaToLowerCase_unitwise (s : jsstring) :
  ~ In capitalSigma s -> ecmaToLowerCase s = map ecmaLowerUnit s.
Proof. apply ecmaLowerFrom_unitwise. Qed.

(** ** Instances on the sample inputs *)

Example search_sample :
  searchTrace ecmaToLowerCase sampleIndex (lit "alpha") true
  = [ (0, [lit "alpha"; lit "beta"]);
      (2, [lit "beta"; lit "alpha"; lit "gamma"]) ].
Proof. reflexivity. Qed.

Example search_sample_case :
  search ecmaToLowerCase sampleIndex (lit "ALPHA") false = []
  /\ search ecmaToLowerCase sampleIndex (lit "ALPHA") true
     = search ecmaToLowerCase sampleIndex (lit "alpha") true.
Proof. split; reflexivity. Qed.

Example search_repeated_occurrence :
  search ecmaToLowerCase (lit "banana") (lit "an") false = [lit "banana"].
Proof. reflexivity. Qed.

Lemma match_context_neighbours_witness :
  In (2, [lit "beta"; lit "alpha"; lit "gamma"])
     (searchTrace ecmaToLowerCase sampleIndex (lit "alpha") true)
  /\ exists before line after,
      [lit "beta"; lit "alpha"; lit "gamma"] = before ++ [line] ++ after
      /\ nth_error (split sampleIndex newline) 2 = Some line.
Proof.
  assert (Hin : In (2, [lit "beta"; lit "alpha"; lit "gamma"])
                   (searchTrace ecmaToLowerCase sampleIndex (lit "alpha") true)).
  { vm_compute. right; left; reflexivity. }
  split; [exact Hin|].
  destruct (match_context_neighbours ecmaToLowerCase sampleIndex (lit "alpha")
              true 2 [lit "beta"; lit "alpha"; lit "gamma"] Hin)
    as [before [line [after [Hc [Hn _]]]]].
  exists before, line, after. split; [exact Hc | exact Hn].
Defined.

Lemma search_no_match_empty_witness :
  search ecmaToLowerCase sampleIndex (lit "ALPHA") false = [].
Proof.
  apply (search_no_match_empty ecmaToLowerCase sampleIndex (lit "ALPHA") false).
  intros line Hin Ho. apply includes_occursIn in Ho.
  vm_compute in Hin.
  repeat (destruct Hin as [Hin|Hin];
          [subst line; vm_compute in Ho; discriminate Ho|]).
  exact Hin.
Defined.

Lemma exact_match_also_insensitive_witness :
  In 0 (matchedIndices ecmaToLowerCase sampleMixed (lit "World") false)
  /\ In 0 (matchedIndices ecmaToLowerCase sampleMixed (lit "World") true).
Proof.
  assert (Hin : In 0 (matchedIndices ecmaToLowerCase sampleMixed
                                     (lit "World") false)).
  { vm_compute. left; reflexivity. }
  split; [exact Hin|].
  apply (exact_match_also_insensitive ecmaToLowerCase ecmaLowerUnit
           sampleMixed (lit "World")); [| reflexivity | exact Hin].
  intros line Hl. vm_compute in Hl.
  repeat (destruct Hl as [Hl|Hl]; [subst line; reflexivity|]).
  destruct Hl.
Defined.

Lemma search_matches_iff_witness :
  ecmaToLowerCase [] = []
  /\ length (search ecmaToLowerCase sampleIndex [] true) = 4.
Proof.
  split; [reflexivity|].
  apply (@search_matches_iff ecmaToLowerCase ecmaToLowerCase_empty
           sampleIndex [] true).
  reflexivity.
Defined.

Lemma search_empty_text_witness :
  search ecmaToLowerCase [] [] true = [[]]
  /\ search ecmaToLowerCase [] (lit "x") true = [].
Proof.
  split.
  - apply (@search_empty_text ecmaToLowerCase ecmaToLowerCase_empty
             ecmaToLowerCase_nonempty [] true).
    reflexivity.
  - apply (@search_empty_text ecmaToLowerCase ecmaToLowerCase_empty
             ecmaToLowerCase_nonempty (lit "x") true).
    discriminate.
Defined.

(** C9 as stated fails.  The one-line text is a capital alpha followed by a
    capital sigma, the query is a capital sigma.  The line contains the
    query; lower-cased, the line ends with the final sigma and the query is
    the small sigma, which the line does not contain. *)
Lemma final_sigma_breaks_inclusion :
  ecmaToLowerCase sampleGreek = [0x3B1%N; finalSigma]
  /\ ecmaToLowerCase [capitalSigma] = [smallSigma]
  /\ In 0 (matchedIndices ecmaToLowerCase sampleGreek [capitalSigma] false)
  /\ ~ In 0 (matchedIndices ecmaToLowerCase sampleGreek [capitalSigma] true).
Proof.
  split; [reflexivity|]. split; [reflexivity|]. split.
  - vm_compute. left; reflexivity.
  - vm_compute. intros H; exact H.
Qed.

(** * Further properties *)

(** ** Locator resolver: how the three shapes relate *)

Lemma absoluteTarget_app (a b : jsstring) :
  absoluteTarget a -> absoluteTarget (a ++ b).
Proof.
  intros [[r ->]|[r ->]]; [left|right]; exists (r ++ b);
    rewrite app_assoc; reflexivity.
Qed.

Lemma absoluteTarget_decide (url : jsstring) :
  absoluteTarget url \/ ~ absoluteTarget url.
Proof.
  unfold absoluteTarget.
  destruct (startsWith url (lit "http://")) eqn:Ehttp;
    destruct (startsWith url (lit "https://")) eqn:Ehttps;
    reflect_prefix; tauto.
Qed.

Lemma resolvePageLocator_fixes_absolute (docSite : DocSite) (url : jsstring) :
  absoluteTarget url -> resolvePageLocator docSite url = url.
Proof.
  unfold resolvePageLocator, absoluteTarget. intros Habs.
  destruct (startsWith url (lit "http://")) eqn:Ehttp;
    destruct (startsWith url (lit "https://")) eqn:Ehttps;
    cbn [orb]; try reflexivity.
  reflect_prefix. tauto.
Qed.

Lemma rooted_not_absolute (rest : jsstring) :
  ~ absoluteTarget (lit "/" ++ rest).
Proof. intros [[r H]|[r H]]; vm_compute in H; discriminate H. Qed.

Lemma resolvePageLocator_relative_prefix (docSite : DocSite) (url : jsstring) :
  ~ absoluteTarget url ->
  beginsWith (resolvePageLocator docSite url) (baseUrl docSite ++ lit "/").
Proof.
  unfold resolvePageLocator, absoluteTarget. intros Hrel.
  destruct (startsWith url (lit "http://")) eqn:Ehttp;
    destruct (startsWith url (lit "https://")) eqn:Ehttps;
    reflect_prefix; try tauto.
  cbn [orb]. destruct (startsWith url (lit "/")) eqn:Eroot; reflect_prefix.
  - destruct Eroot as [rest ->]. exists rest. rewrite <- app_assoc. reflexivity.
  - exists url. rewrite <- app_assoc. reflexivity.
Qed.

(** A target that is not absolute resolves under the base: the locator
    begins with [baseUrl] and a slash. *)
Theorem relative_target_stays_under_base (docSite : DocSite) (url : jsstring) :
  ~ absoluteTarget url ->
  beginsWith (resolvePageLocator docSite url) (baseUrl docSite ++ lit "/").
Proof. apply resolvePageLocator_relative_prefix. Qed.

Lemma relative_target_stays_under_base_witness :
  beginsWith (resolvePageLocator sampleSite (lit "guide/intro"))
             (lit "https://firebase.google.com/docs/").
Proof.
  apply (@relative_target_stays_under_base sampleSite (lit "guide/intro")).
  intros [[r H]|[r H]]; vm_compute in H; discriminate H.
Defined.

(** Against a site whose [baseUrl] is itself absolute, resolving is
    idempotent: a resolved locator resolves to itself. *)
Theorem resolvePageLocator_idempotent (docSite : DocSite) (url : jsstring) :
  absoluteTarget (baseUrl docSite) ->
  resolvePageLocator docSite (resolvePageLocator docSite url)
  = resolvePageLocator docSite url.
Proof.
  intros Hbase. apply resolvePageLocator_fixes_absolute.
  destruct (absoluteTarget_decide url) as [Habs|Hrel].
  - rewrite (resolvePageLocator_fixes_absolute docSite Habs). exact Habs.
  - destruct (resolvePageLocator_relative_prefix docSite Hrel) as [rest ->].
    rewrite <- app_assoc. apply absoluteTarget_app. exact Hbase.
Qed.

Lemma resolvePageLocator_idempotent_witness :
  resolvePageLocator sampleSite (resolvePageLocator sampleSite (lit "a/b"))
  = resolvePageLocator sampleSite (lit "a/b").
Proof.
  apply (@resolvePageLocator_idempotent sampleSite (lit "a/b")).
  right. exists (lit "firebase.google.com/docs"). reflexivity.
Defined.

(** A bare path and the same path with a slash before it resolve to the
    same locator. *)
Theorem rooted_and_bare_coincide (docSite : DocSite) (path : jsstring) :
  ~ absoluteTarget path ->
  ~ beginsWith path (lit "/") ->
  resolvePageLocator docSite (lit "/" ++ path)
  = resolvePageLocator docSite path.
Proof.
  unfold resolvePageLocator, absoluteTarget. intros Hrel Hbare.
  destruct (startsWith path (lit "http://")) eqn:Ehttp;
    destruct (startsWith path (lit "https://")) eqn:Ehttps;
    destruct (startsWith path (lit "/")) eqn:Eroot;
    reflect_prefix; first [tauto | reflexivity].
Qed.

Lemma rooted_and_bare_coincide_witness :
  resolvePageLocator sampleSite (lit "/a/b")
  = resolvePageLocator sampleSite (lit "a/b").
Proof.
  apply (@rooted_and_bare_coincide sampleSite (lit "a/b")).
  - intros [[r H]|[r H]]; vm_compute in H; discriminate H.
  - intros [r H]; vm_compute in H; discriminate H.
Defined.

Lemma index_is_the_page_at_indexPath_rooted (docSite : DocSite) :
  beginsWith (indexPath docSite) (lit "/") ->
  resolvePageLocator docSite (indexPath docSite)
  = baseUrl docSite ++ indexPath docSite.
Proof.
  intros [rest Hrest]. unfold resolvePageLocator.
  rewrite Hrest. reflexivity.
Qed.

(** The index of a site is the page at its [indexPath], when that path
    begins with a slash. *)
Theorem index_is_the_page_at_indexPath (docSite : DocSite) :
  beginsWith (indexPath docSite) (lit "/") ->
  resolvePageLocator docSite (indexPath docSite)
  = resolveIndexLocator docSite.
Proof.
  intros H. unfold resolveIndexLocator.
  apply index_is_the_page_at_indexPath_rooted. exact H.
Qed.

Lemma index_is_the_page_at_indexPath_witness :
  resolvePageLocator sampleSite (lit "/llms.txt")
  = lit "https://firebase.google.com/docs/llms.txt".
Proof.
  apply (@index_is_the_page_at_indexPath sampleSite).
  exists (lit "llms.txt"). reflexivity.
Defined.

(** ** Input schema and registry *)

Lemma siteEnum_In (site : jsstring) :
  existsb (strictEquals site) siteEnum = true <-> In site siteEnum.
Proof.
  rewrite existsb_exists. split.
  - intros [x [Hin Hx]]. apply strictEquals_eq in Hx. subst. exact Hin.
  - intros Hin. exists site. split; [exact Hin | apply strictEquals_refl].
Qed.

(** The schema admits exactly the keys of the table.  Whatever it lets
    through, the omitted value included, resolves to a descriptor of the
    table: behind the schema the unknown-site answer is never given. *)
Theorem schema_admits_the_table_keys :
  (forall input site,
      parseSite input = Some site ->
      In site (Object_keys DOC_SITES)
      /\ exists docSite, resolve site = inr (OwnSite docSite))
  /\ (forall site,
        In site (Object_keys DOC_SITES) -> parseSite (Some site) = Some site).
Proof.
  split.
  - intros input site H.
    assert (Hin : In site siteEnum).
    { destruct input as [s|]; unfold parseSite in H.
      - destruct (existsb (strictEquals s) siteEnum) eqn:E; [|discriminate H].
        inversion H; subst. apply siteEnum_In. exact E.
      - inversion H. left; reflexivity. }
    unfold siteEnum in Hin. simpl in Hin.
    destruct Hin as [<-|[<-|[<-|[]]]];
      (split; [vm_compute; tauto | eexists; reflexivity]).
  - intros site Hin. unfold parseSite.
    assert (E : existsb (strictEquals site) siteEnum = true)
      by (apply siteEnum_In; exact Hin).
    rewrite E. reflexivity.
Qed.

(** ** Fetching and the three handlers *)

Lemma resolve_OwnSite (site : jsstring) (docSite : DocSite) :
  resolve site = inr (OwnSite docSite) ->
  getProperty DOC_SITES site = OwnSite docSite.
Proof.
  unfold resolve. destruct (getProperty DOC_SITES site); simpl; intros H;
    inversion H; reflexivity.
Qed.

Lemma resolve_unknown (site : jsstring) (result : ToolResult) :
  resolve site = inl result ->
  getProperty DOC_SITES site = Undefined /\ result = unknownSite site.
Proof.
  unfold resolve. destruct (getProperty DOC_SITES site); simpl; intros H;
    inversion H; split; reflexivity.
Qed.

Lemma table_indexPath_rooted (site : jsstring) (docSite : DocSite) :
  resolve site = inr (OwnSite docSite) ->
  beginsWith (indexPath docSite) (lit "/").
Proof.
  intros H. apply resolve_OwnSite in H. unfold getProperty in H.
  destruct (ownProperty DOC_SITES site) as [d|] eqn:E.
  - inversion H; subst d. apply ownProperty_In in E.
    unfold DOC_SITES in E. simpl in E.
    destruct E as [E|[E|[E|[]]]]; inversion E; exists (lit "llms.txt");
      reflexivity.
  - destruct (existsb _ _); discriminate H.
Qed.

Section HandlerFacts.

Variable toLowerCase : jsstring -> jsstring.
Variable fetch : jsstring -> Thrown + Response.

(** [fetchContent] returns a text exactly when [fetch] resolves with an
    [ok] response whose body can be read.  Every failure is an [Error]
    whose message names the address; for a response that is not [ok] the
    message goes on with the status, whatever the body. *)
Theorem fetchContent_outcomes (url : jsstring) :
  (forall content,
      fetchContent fetch url = inr content
      <-> exists response,
          fetch url = inr response
          /\ ok response = true /\ body response = inr content)
  /\ (forall error,
        fetchContent fetch url = inl error ->
        exists cause,
          error = ErrorObject (lit "Failed to fetch from " ++ url ++ lit ": "
                               ++ cause))
  /\ (forall response,
        fetch url = inr response ->
        ok response = false ->
        fetchContent fetch url
        = inl (ErrorObject (lit "Failed to fetch from " ++ url
                            ++ lit ": HTTP error! status: "
                            ++ numberToString (status response)))).
Proof.
  unfold fetchContent. split; [|split].
  - intros content. split.
    + destruct (fetch url) as [e|r]; [discriminate|].
      destruct (ok r) eqn:Eok; simpl; [|discriminate].
      destruct (body r) as [e|t] eqn:Eb; [discriminate|].
      intros H; inversion H; subst. exists r. auto.
    + intros [r [-> [Hok Hb]]]. rewrite Hok, Hb. reflexivity.
  - intros error. destruct (fetch url) as [e|r].
    + intros H; inversion H. eexists; reflexivity.
    + destruct (ok r); simpl.
      * destruct (body r); intros H; inversion H. eexists; reflexivity.
      * intros H; inversion H. eexists; reflexivity.
  - intros r -> Hok. rewrite Hok. reflexivity.
Qed.

(** The three handlers set [isError] exactly on the answers whose text
    begins with ["Error: "]. *)
Theorem error_flag_iff_error_text (url query site : jsstring) (ci : bool) :
  startsWith (text (fetch_doc_index_handler fetch site)) (lit "Error: ")
  = isError (fetch_doc_index_handler fetch site)
  /\ startsWith (text (fetch_doc_page_handler fetch url site)) (lit "Error: ")
     = isError (fetch_doc_page_handler fetch url site)
  /\ startsWith (text (search_docs_handler toLowerCase fetch query site ci))
                (lit "Error: ")
     = isError (search_docs_handler toLowerCase fetch query site ci).
Proof.
  unfold fetch_doc_index_handler, fetch_doc_page_handler, search_docs_handler.
  destruct (fieldsOf (getProperty DOC_SITES site)) as [d|];
    [|repeat split; reflexivity].
  split; [|split].
  - destruct (fetchContent fetch (resolveIndexLocator d)); reflexivity.
  - destruct (fetchContent fetch (resolvePageLocator d url)); reflexivity.
  - destruct (fetchContent fetch (resolveIndexLocator d)); [reflexivity|].
    unfold search_docs. destruct (length _ =? 0); reflexivity.
Qed.

(** When the response for a table site is not [ok], the index handler and
    the page handler answer with an error that names the address they asked
    for and the status. *)
Theorem failed_fetch_names_the_address (site url : jsstring)
        (docSite : DocSite) :
  resolve site = inr (OwnSite docSite) ->
  (forall response,
      fetch (baseUrl docSite ++ indexPath docSite) = inr response ->
      ok response = false ->
      fetch_doc_index_handler fetch site
      = {| text := lit "Error: Failed to fetch from "
                   ++ baseUrl docSite ++ indexPath docSite
                   ++ lit ": HTTP error! status: "
                   ++ numberToString (status response);
           isError := true |})
  /\ (forall response,
        fetch (resolvePageLocator docSite url) = inr response ->
        ok response = false ->
        fetch_doc_page_handler fetch url site
        = {| text := lit "Error: Failed to fetch from "
                     ++ resolvePageLocator docSite url
                     ++ lit ": HTTP error! status: "
                     ++ numberToString (status response);
             isError := true |}).
Proof.
  intros H. apply resolve_OwnSite in H.
  unfold fetch_doc_index_handler, fetch_doc_page_handler, fetchContent,
    resolveIndexLocator.
  rewrite H. simpl fieldsOf. cbv zeta. split; intros r Hr Hok;
    rewrite Hr, Hok; unfold caught; simpl; rewrite <- ?app_assoc; reflexivity.
Qed.

(** The search handler asks for the same address as the index handler:
    the two fail together, and with the same answer. *)
Theorem search_fails_as_index_fails (query site : jsstring) (ci : bool) :
  isError (search_docs_handler toLowerCase fetch query site ci)
  = isError (fetch_doc_index_handler fetch site)
  /\ (isError (fetch_doc_index_handler fetch site) = true ->
      search_docs_handler toLowerCase fetch query site ci
      = fetch_doc_index_handler fetch site).
Proof.
  unfold search_docs_handler, fetch_doc_index_handler.
  destruct (fieldsOf (getProperty DOC_SITES site)) as [d|];
    [|split; reflexivity].
  destruct (fetchContent fetch (resolveIndexLocator d)) as [e|content];
    [split; reflexivity|].
  unfold search_docs. destruct (length _ =? 0); simpl;
    (split; [reflexivity | discriminate]).
Qed.

(** For a table site, asking the page handler for the site's [indexPath]
    gives what the index handler gives: the same error, or the same
    content under the other heading. *)
Theorem index_page_agrees_with_index (site : jsstring) (docSite : DocSite) :
  resolve site = inr (OwnSite docSite) ->
  (exists error,
      fetch_doc_index_handler fetch site = caught error
      /\ fetch_doc_page_handler fetch (indexPath docSite) site = caught error)
  \/ (exists content,
         fetch_doc_index_handler fetch site
         = {| text := lit "Documentation index for " ++ name docSite
                      ++ lit ":" ++ [newline; newline] ++ content;
              isError := false |}
         /\ fetch_doc_page_handler fetch (indexPath docSite) site
            = {| text := lit "Content from " ++ resolveIndexLocator docSite
                         ++ lit " (" ++ name docSite ++ lit "):"
                         ++ [newline; newline] ++ content;
                 isError := false |}).
Proof.
  intros H. pose proof (@table_indexPath_rooted site docSite H) as Hroot.
  apply resolve_OwnSite in H.
  unfold fetch_doc_index_handler, fetch_doc_page_handler.
  rewrite H. cbn [fieldsOf]. cbv zeta.
  rewrite (@index_is_the_page_at_indexPath_rooted docSite Hroot).
  fold (resolveIndexLocator docSite).
  destruct (fetchContent fetch (resolveIndexLocator docSite)) as [e|content].
  - left. exists e. split; reflexivity.
  - right. exists content. split; reflexivity.
Qed.

(** The value of a recorded handler is the answer of the handler. *)
Lemma recorded_handlers_answer (url query site : jsstring) (ci : bool)
      (requests : list jsstring) :
  fst (fetch_doc_index_recorded fetch site requests)
  = fetch_doc_index_handler fetch site
  /\ fst (fetch_doc_page_recorded fetch url site requests)
     = fetch_doc_page_handler fetch url site
  /\ fst (search_docs_recorded toLowerCase fetch query site ci requests)
     = search_docs_handler toLowerCase fetch query site ci.
Proof.
  unfold fetch_doc_index_recorded, fetch_doc_page_recorded,
    search_docs_recorded, fetch_doc_index_handler, fetch_doc_page_handler,
    search_docs_handler, fetchContentRecorded, fetchRecorded, fetchContent.
  destruct (fieldsOf (getProperty DOC_SITES site)) as [d|];
    repeat split; reflexivity.
Qed.

(** For a site that resolves to the unknown-site error, every handler
    gives that error and leaves the requests as they were: nothing is
    fetched.  For any other site every handler makes one request and no
    more: for the index address in the index and the search handler, for
    the resolved page address in the page handler. *)
Theorem unknown_site_makes_no_request (url query site : jsstring) (ci : bool)
        (requests : list jsstring) :
  (forall result,
      resolve site = inl result ->
      fetch_doc_index_recorded fetch site requests = (result, requests)
      /\ fetch_doc_page_recorded fetch url site requests = (result, requests)
      /\ search_docs_recorded toLowerCase fetch query site ci requests
         = (result, requests))
  /\ (forall docSite,
        fieldsOf (getProperty DOC_SITES site) = Some docSite ->
        snd (fetch_doc_index_recorded fetch site requests)
        = requests ++ [resolveIndexLocator docSite]
        /\ snd (fetch_doc_page_recorded fetch url site requests)
           = requests ++ [resolvePageLocator docSite url]
        /\ snd (search_docs_recorded toLowerCase fetch query site ci requests)
           = requests ++ [resolveIndexLocator docSite]).
Proof.
  unfold fetch_doc_index_recorded, fetch_doc_page_recorded,
    search_docs_recorded, fetchContentRecorded, fetchRecorded.
  split.
  - intros result H. apply resolve_unknown in H as [Hget ->].
    rewrite Hget. repeat split; reflexivity.
  - intros docSite H. rewrite H. repeat split; reflexivity.
Qed.

End HandlerFacts.

Lemma unknown_site_makes_no_request_witness :
  search_docs_recorded ecmaToLowerCase sampleFetch (lit "alpha")
                       (lit "nextjs") true []
  = (unknownSite (lit "nextjs"), [])
  /\ snd (search_docs_recorded ecmaToLowerCase sampleFetch (lit "alpha")
                               (lit "firebase") true [])
     = [lit "https://firebase.google.com/docs/llms.txt"].
Proof.
  destruct (@unknown_site_makes_no_request ecmaToLowerCase sampleFetch []
              (lit "alpha") (lit "nextjs") true []) as [Hnone _].
  destruct (@unknown_site_makes_no_request ecmaToLowerCase sampleFetch []
              (lit "alpha") (lit "firebase") true []) as [_ Hone].
  split.
  - apply (Hnone (unknownSite (lit "nextjs")) eq_refl).
  - apply (Hone sampleSite eq_refl).
Defined.

Lemma failed_fetch_names_the_address_witness :
  fetch_doc_index_handler sampleFetch (lit "modernjs")
  = {| text := lit "Error: Failed to fetch from https://modernjs.dev/llms.txt: HTTP error! status: 404";
       isError := true |}.
Proof.
  destruct (@failed_fetch_names_the_address sampleFetch (lit "modernjs") []
              {| name := lit "Modern.js";
                 baseUrl := lit "https://modernjs.dev";
                 indexPath := lit "/llms.txt" |} eq_refl) as [Hindex _].
  rewrite (Hindex {| ok := false; status := 404; body := inr [] |}
                  eq_refl eq_refl).
  reflexivity.
Defined.

Lemma index_page_agrees_with_index_witness :
  isError (fetch_doc_page_handler sampleFetch (indexPath sampleSite)
                                  (lit "firebase"))
  = isError (fetch_doc_index_handler sampleFetch (lit "firebase")).
Proof.
  destruct (@index_page_agrees_with_index sampleFetch (lit "firebase")
              sampleSite eq_refl) as [[e [H1 H2]]|[c [H1 H2]]];
    rewrite H1, H2; reflexivity.
Defined.

(** ** Search engine: what the results contain *)

Lemma occursIn_trans (a b c : jsstring) :
  occursIn a b -> occursIn b c -> occursIn a c.
Proof.
  intros [p [s ->]] [p' [s' ->]]. exists (p' ++ p), (s ++ s').
  rewrite <- !app_assoc. reflexivity.
Qed.

Lemma occursIn_join (x : jsstring) (l : list jsstring) (sep : jsstring) :
  In x l -> occursIn x (join l sep).
Proof.
  induction l as [|y l IH]; intros Hin; [destruct Hin|].
  destruct l as [|z l].
  - destruct Hin as [->|[]]. exists [], []. simpl. rewrite app_nil_r.
    reflexivity.
  - change (join (y :: z :: l) sep) with (y ++ sep ++ join (z :: l) sep).
    destruct Hin as [->|Hin].
    + exists [], (sep ++ join (z :: l) sep). reflexivity.
    + destruct (IH Hin) as [p [s Hps]]. exists (y ++ sep ++ p), s.
      rewrite Hps, <- !app_assoc. reflexivity.
Qed.

Lemma split_app_newline (a b : jsstring) (sep : code_unit) :
  split (a ++ sep :: b) sep = split a sep ++ split b sep.
Proof.
  induction a as [|c a IH]; simpl.
  - rewrite N.eqb_refl. reflexivity.
  - destruct (c =? sep)%N.
    + rewrite IH. reflexivity.
    + rewrite IH. pose proof (split_not_nil a sep) as Hne.
      destruct (split a sep) as [|p ps]; [congruence | reflexivity].
Qed.

Lemma indexedFrom_app (l1 l2 : list jsstring) (index : nat) :
  indexedFrom index (l1 ++ l2)
  = indexedFrom index l1 ++ indexedFrom (index + length l1) l2.
Proof.
  revert index; induction l1 as [|x l1 IH]; intros index.
  - simpl. rewrite Nat.add_0_r. reflexivity.
  - simpl app. rewrite !indexedFrom_cons, IH. cbn [app length].
    replace (index + S (length l1)) with (S index + length l1) by lia.
    reflexivity.
Qed.

Lemma indexed_filter_shift (h : jsstring -> bool) (l : list jsstring)
      (index : nat) :
  map fst (filter (fun p => h (snd p)) (indexedFrom index l))
  = map (fun i => index + i)
        (map fst (filter (fun p => h (snd p)) (indexedFrom 0 l))).
Proof.
  revert index; induction l as [|x l IH]; intros index; [reflexivity|].
  rewrite !indexedFrom_cons. cbn [filter snd].
  destruct (h x); cbn [map fst]; rewrite (IH (S index)), (IH 1), !map_map;
    [f_equal; [lia|]|]; apply map_ext; intros i; lia.
Qed.

Section SearchEngineResults.

Variable toLowerCase : jsstring -> jsstring.

(** With [caseInsensitive] unset, every string of the result contains the
    query. *)
Theorem exact_result_contains_query (text query m : jsstring) :
  In m (search toLowerCase text query false) -> occursIn query m.
Proof.
  rewrite search_map, in_map_iff. intros [i [<- Hi]].
  apply matchedIndices_In in Hi as [line [Hn Hm]].
  apply lineMatches_occursIn in Hm.
  apply (occursIn_trans Hm). apply occursIn_join.
  destruct (context_shape _ _ Hn) as [before [after [-> _]]].
  apply in_or_app. right. left. reflexivity.
Qed.

(** With [caseInsensitive] unset, a query that contains a newline matches
    no line: the lines of the split text contain none. *)
Theorem multiline_query_never_matches (text query : jsstring) :
  In newline query -> search toLowerCase text query false = [].
Proof.
  intros Hnl. rewrite search_map, matchedIndices_filter.
  rewrite filter_none; [reflexivity|].
  intros [j line] Hin. simpl.
  apply indexedFrom_In in Hin as [k [_ Hk]]. apply nth_error_In in Hk.
  destruct (lineMatches toLowerCase query false line) eqn:E; [|reflexivity].
  apply lineMatches_occursIn in E. destruct E as [p [s Hline]].
  pose proof (split_pieces_free text newline) as Hfree.
  rewrite Forall_forall in Hfree. exfalso. apply (Hfree line Hk).
  rewrite Hline. apply in_or_app. right. apply in_or_app. left. exact Hnl.
Qed.

(** With [caseInsensitive] unset, a line matched for a query is matched for
    every part of that query. *)
Theorem part_of_query_matches_more (text query part : jsstring) (i : nat) :
  occursIn part query ->
  In i (matchedIndices toLowerCase text query false) ->
  In i (matchedIndices toLowerCase text part false).
Proof.
  intros Hpart. rewrite !matchedIndices_In.
  intros [line [Hn Hm]]. exists line. split; [exact Hn|].
  apply lineMatches_occursIn. apply lineMatches_occursIn in Hm.
  exact (occursIn_trans Hpart Hm).
Qed.

(** With [caseInsensitive] set, two queries with the same lower-case form
    give the same result. *)
Theorem query_case_is_irrelevant (text query1 query2 : jsstring) :
  toLowerCase query1 = toLowerCase query2 ->
  search toLowerCase text query1 true = search toLowerCase text query2 true.
Proof.
  intros Hq. rewrite !search_map, !matchedIndices_filter.
  do 2 f_equal. apply filter_ext. intros [j line].
  unfold lineMatches. simpl. rewrite Hq. reflexivity.
Qed.

(** The result has at most one string per line of the text, and every
    context has one, two or three lines. *)
Theorem search_size_bounds (text query : jsstring) (ci : bool) :
  length (search toLowerCase text query ci) <= length (split text newline)
  /\ forall c,
      In c (searchContexts toLowerCase text query ci) ->
      1 <= length c <= 3.
Proof.
  split.
  - rewrite search_map, matchedIndices_filter, !length_map.
    rewrite <- (indexedFrom_length (split text newline) 0).
    apply filter_length_le.
  - intros c Hc. unfold searchContexts in Hc.
    apply in_map_iff in Hc as [[i c'] [Heq Hin]]. simpl in Heq; subst c'.
    apply searchTrace_In in Hin as [_ ->].
    unfold context. rewrite !length_app.
    destruct (0 <? i); destruct (i <? length (split text newline) - 1);
      simpl; lia.
Qed.

(** A text without a newline is one line: the result is that text when it
    matches, and empty otherwise. *)
Theorem single_line_text (text query : jsstring) (ci : bool) :
  ~ In newline text ->
  (occursIn (if ci then toLowerCase query else query)
            (if ci then toLowerCase text else text) ->
   search toLowerCase text query ci = [text])
  /\ (~ occursIn (if ci then toLowerCase query else query)
                 (if ci then toLowerCase text else text) ->
      search toLowerCase text query ci = []).
Proof.
  intros Hfree. unfold search, searchContexts, searchTrace.
  rewrite (@split_free text newline Hfree). cbn [forEach].
  destruct (lineMatches toLowerCase query ci text) eqn:E.
  - split; [reflexivity|]. intros Hno. exfalso. apply Hno.
    apply lineMatches_occursIn. exact E.
  - split; [|reflexivity]. intros Hyes.
    apply lineMatches_occursIn in Hyes. congruence.
Qed.

(** Searching two texts joined by a newline finds the matching lines of
    the first, then those of the second, counted after the lines of the
    first. *)
Theorem search_of_joined_texts (text1 text2 query : jsstring) (ci : bool) :
  matchedIndices toLowerCase (text1 ++ newline :: text2) query ci
  = matchedIndices toLowerCase text1 query ci
    ++ map (fun i => length (split text1 newline) + i)
           (matchedIndices toLowerCase text2 query ci).
Proof.
  rewrite !matchedIndices_filter, split_app_newline, indexedFrom_app.
  rewrite filter_app, map_app. f_equal.
  apply (indexed_filter_shift (lineMatches toLowerCase query ci)).
Qed.

End SearchEngineResults.

Lemma exact_result_contains_query_witness :
  occursIn (lit "bet") (lit "alpha" ++ [newline] ++ lit "beta" ++ [newline]
                        ++ lit "alpha").
Proof.
  apply (@exact_result_contains_query ecmaToLowerCase sampleIndex (lit "bet")).
  vm_compute. left; reflexivity.
Defined.

Lemma multiline_query_never_matches_witness :
  search ecmaToLowerCase sampleIndex (lit "alpha" ++ [newline] ++ lit "beta")
         false = [].
Proof.
  apply (@multiline_query_never_matches ecmaToLowerCase sampleIndex).
  vm_compute. do 5 right. left. reflexivity.
Defined.

Lemma part_of_query_matches_more_witness :
  In 3 (matchedIndices ecmaToLowerCase sampleIndex (lit "mm") false).
Proof.
  apply (@part_of_query_matches_more ecmaToLowerCase sampleIndex
           (lit "gamma") (lit "mm") 3).
  - exists (lit "ga"), (lit "a"). reflexivity.
  - vm_compute. left; reflexivity.
Defined.

Lemma query_case_is_irrelevant_witness :
  search ecmaToLowerCase sampleIndex (lit "ALPHA") true
  = search ecmaToLowerCase sampleIndex (lit "Alpha") true.
Proof.
  apply (@query_case_is_irrelevant ecmaToLowerCase sampleIndex
           (lit "ALPHA") (lit "Alpha")).
  reflexivity.
Defined.

Lemma single_line_text_witness :
  search ecmaToLowerCase (lit "Hello World") (lit "WORLD") true
  = [lit "Hello World"].
Proof.
  apply (@single_line_text ecmaToLowerCase (lit "Hello World") (lit "WORLD")
           true).
  - vm_compute. intros H.
    repeat (destruct H as [H|H]; [discriminate H|]). exact H.
  - exists (lit "hello "), []. reflexivity.
Defined.
